(** * Posture Coach: sensor acquisition, feature assembly and the mode/alert loop

    A shallow embedding of [imu_reader.py], [data_collection.py],
    [training.py] and [deploy.py], followed by the properties the design
    document states about them.

    Conventions of the embedding:
    - Python [float]s (timestamps, accelerations, angles) are idealised as
      rationals [Q]; the libm functions [atan2] and [sqrt] and the constant
      [pi] are taken as an interface ([Libm]).
    - Python [dict]s keyed by strings are [gmap string _]; a value that may
      be [None] is an [option].
    - A Python exception is the [Raise] alternative of [outcome].
    - Hardware is an explicit environment: what the I2C bus answers is an
      argument, what the program does to the bus is a trace of [bus_op]s. *)

From Stdlib Require Import Ascii String QArith Lqa.
From stdpp Require Import gmap strings list fin_maps.

Open Scope string_scope.
Open Scope list_scope.

(** ** Python builtins used by the sources *)

Module Py.

(** [s.split(sep)] for a one-character separator: every occurrence of
    [sep] ends a token, so the result is never empty. *)
Fixpoint split (sep : ascii) (s : string) : list string :=
  match s with
  | EmptyString => [EmptyString]
  | String c rest =>
      if Ascii.eqb c sep then EmptyString :: split sep rest
      else match split sep rest with
           | [] => [String c EmptyString]
           | w :: ws => String c w :: ws
           end
  end.

(** [sep.join(parts)] *)
Definition join (sep : string) (parts : list string) : string :=
  String.concat sep parts.

(** [parts[:-1]] and [parts[-1]] on a list of strings. *)
Definition but_last (parts : list string) : list string := removelast parts.
Definition last_item (parts : list string) : string := List.last parts "".

(** [needle in hay] on strings. *)
Fixpoint contains (needle hay : string) : bool :=
  String.prefix needle hay ||
  match hay with
  | EmptyString => false
  | String _ hay' => contains needle hay'
  end.

(** [sep not in s] for a one-character [sep]. *)
Fixpoint free_of (sep : ascii) (s : string) : bool :=
  match s with
  | EmptyString => true
  | String c rest => negb (Ascii.eqb c sep) && free_of sep rest
  end.

(** [s[:n]] *)
Definition take (n : nat) (s : string) : string := String.substring 0 n s.

(** [round(x, ndigits)]: to the nearest multiple of [10 ** -ndigits],
    ties going to the even one. *)
Definition round_half_even (x : Q) : Z :=
  let n := Qnum x in
  let d := Z.pos (Qden x) in
  let lo := (n / d)%Z in
  match (2 * (n mod d) ?= d)%Z with
  | Lt => lo
  | Gt => (lo + 1)%Z
  | Eq => if Z.even lo then lo else (lo + 1)%Z
  end.

Definition round (x : Q) (ndigits : Z) : Q :=
  if (0 <=? ndigits)%Z then
    let scale := Z.to_pos (10 ^ ndigits) in
    Qmake (round_half_even (x * inject_Z (Z.pos scale))) scale
  else
    let scale := (10 ^ (- ndigits))%Z in
    inject_Z (round_half_even (x / inject_Z scale) * scale).

(** Exceptions the modelled code can meet. *)
Inductive exn : Type :=
| OSError
| KeyError (key : string).

Inductive outcome (A : Type) : Type :=
| Ret (a : A)
| Raise (e : exn).
Arguments Ret {A} a.
Arguments Raise {A} e.

End Py.

(** The libm functions, on the idealised floats. *)
Class Libm : Type := {
  atan2 : Q -> Q -> Q;
  sqrt : Q -> Q;
  pi : Q
}.

(** ** imu_reader.py *)

Module ImuReader.
Import Py.

Definition TCA_ADDRESS : Z := 0x70.

(** The two configuration dicts, in their insertion order (the order
    [.items()] iterates in). *)
Definition TCA_CHANNEL_MAP : list (Z * string) :=
  [ (0, "left_thigh");
    (1, "left_calf");
    (2, "right_calf");
    (3, "right_thigh");
    (4, "upper_mid_back");
    (5, "upper_back");
    (6, "right_shoulder");
    (7, "left_shoulder") ]%Z.

Definition DIRECT_ADDRESS_MAP : list (Z * string) :=
  [ (0x68, "lower_mid_back");
    (0x69, "lower_back") ]%Z.

(** What the program does on the I2C bus. [TcaWrite b] is
    [bus.write_byte(TCA_ADDRESS, b)]; the two others are the
    construction of an [MPU6050] object and the read of its
    [acceleration] property, tagged with the sensor they are meant for. *)
Inductive sensor_id : Type :=
| OnChannel (channel : Z)
| Direct (address : Z).

Inductive bus_op : Type :=
| TcaWrite (byte : Z)
| MpuInit (s : sensor_id)
| MpuAccel (s : sensor_id).

(** What one sensor answers during a sampling pass. *)
Inductive sensor_outcome : Type :=
| DeviceAbsent                 (* the MPU6050 constructor raises *)
| AccelFault                   (* reading [.acceleration] raises *)
| Accel (ax ay az : Q).

(** The environment: whether the multiplexer acknowledges the next
    write, given everything done on the bus so far, and what each
    sensor answers. *)
Record environment : Type := {
  tca_ack : list bus_op -> Z -> bool;
  sensor : sensor_id -> sensor_outcome
}.

(** Bus computations: the history of bus operations is threaded
    through, and a computation returns or raises. *)
Definition M (A : Type) : Type := list bus_op -> outcome A * list bus_op.

Definition ret {A} (a : A) : M A := fun h => (Ret a, h).
Definition bind {A B} (m : M A) (k : A -> M B) : M B :=
  fun h => match m h with
           | (Ret a, h') => k a h'
           | (Raise e, h') => (Raise e, h')
           end.
(** [try: body except Exception: handler] *)
Definition try_except {A} (body : M A) (handler : exn -> M A) : M A :=
  fun h => match body h with
           | (Ret a, h') => (Ret a, h')
           | (Raise e, h') => handler e h'
           end.

(** A computation that does not touch the bus. *)
Definition lift {A} (o : outcome A) : M A := fun h => (o, h).

#[global] Instance M_ret : MRet M := @ret.
#[global] Instance M_bind : MBind M := fun A B k m => bind m k.

(** An angle dict [{"pitch": p, "roll": r}]. *)
Record angles : Type := { pitch : Q; roll : Q }.

(** [angles[key]] *)
Definition angles_get (a : angles) (key : string) : outcome Q :=
  if String.eqb key "pitch" then Ret (pitch a)
  else if String.eqb key "roll" then Ret (roll a)
  else Raise (KeyError key).

Section WithEnvironment.
Context `{Libm} (env : environment).

Definition write_byte (address byte : Z) : M unit :=
  fun h => let h' := h ++ [TcaWrite byte] in
           if tca_ack env h byte then (Ret tt, h') else (Raise OSError, h').

Definition select_channel (channel : Z) : M unit :=
  write_byte TCA_ADDRESS (Z.shiftl 1 channel).

Definition close_channels : M unit :=
  write_byte TCA_ADDRESS 0.

Definition compute_angles (ax ay az : Q) : Q * Q :=
  let pitch := (atan2 (- ax) (sqrt (ay * ay + az * az)) * (180 / pi))%Q in
  let roll := (atan2 ay az * (180 / pi))%Q in
  (pitch, roll).

(** [adafruit_mpu6050.MPU6050(i2c, ...)] *)
Definition mpu_init (s : sensor_id) : M unit :=
  fun h => let h' := h ++ [MpuInit s] in
           match sensor env s with
           | DeviceAbsent => (Raise OSError, h')
           | _ => (Ret tt, h')
           end.

(** [mpu.acceleration] *)
Definition mpu_acceleration (s : sensor_id) : M (Q * Q * Q) :=
  fun h => let h' := h ++ [MpuAccel s] in
           match sensor env s with
           | Accel ax ay az => (Ret (ax, ay, az), h')
           | _ => (Raise OSError, h')
           end.

Definition read_tca_imu (channel : Z) : M (option angles) :=
  try_except
    (select_channel channel ;;
     mpu_init (OnChannel channel) ;;
     '(ax, ay, az) ← mpu_acceleration (OnChannel channel) ;
     let '(pitch, roll) := compute_angles ax ay az in
     close_channels ;;
     ret (Some {| pitch := round pitch 3; roll := round roll 3 |}))
    (fun _ =>
       close_channels ;;
       ret None).

Definition read_direct_imu (address : Z) : M (option angles) :=
  try_except
    (mpu_init (Direct address) ;;
     '(ax, ay, az) ← mpu_acceleration (Direct address) ;
     let '(pitch, roll) := compute_angles ax ay az in
     ret (Some {| pitch := round pitch 3; roll := round roll 3 |}))
    (fun _ => ret None).

(** [for key, segment in table.items(): readings[segment] = read(key)] *)
Fixpoint read_each (read : Z -> M (option angles)) (table : list (Z * string))
    (readings : gmap string (option angles)) : M (gmap string (option angles)) :=
  match table with
  | [] => ret readings
  | (key, segment) :: rest =>
      r ← read key ;
      read_each read rest (<[segment := r]> readings)
  end.

Definition read_all_imus : M (gmap string (option angles)) :=
  readings ← read_each read_tca_imu TCA_CHANNEL_MAP ∅ ;
  read_each read_direct_imu DIRECT_ADDRESS_MAP readings.

End WithEnvironment.

End ImuReader.

(** ** data_collection.py *)

Module DataCollection.
Import Py ImuReader.

Definition CSV_FILE : string := "posture_data.csv".
Definition DELAY_SEC : Q := 1 # 10.
Definition CAPTURE_SEC : Q := 30.

Definition LABELS : list string :=
  [ "sitting_good"; "sitting_bad"; "standing_good"; "standing_bad" ].

Definition SEGMENTS : list string :=
  [ "left_thigh";
    "left_calf";
    "right_thigh";
    "right_calf";
    "upper_mid_back";
    "upper_back";
    "right_shoulder";
    "left_shoulder";
    "lower_mid_back";
    "lower_back" ].

(** [[f"{seg}_{angle}" for seg in SEGMENTS for angle in ("pitch", "roll")]] *)
Definition CSV_HEADER : list string :=
  [ "timestamp"; "label" ] ++
  flat_map (fun seg => map (fun angle => seg +:+ "_" +:+ angle) [ "pitch"; "roll" ])
           SEGMENTS.

(** A cell handed to [csv.writer.writerow]. *)
Inductive cell : Type :=
| Num (x : Q)
| Str (s : string)
| Null.

(** The file system as far as the module touches it: the rows of every
    existing file, and the log of the [writerow] calls made so far. *)
Record filesystem : Type := {
  files : gmap string (list (list cell));
  writes : list (string * list cell)
}.

(** [os.path.exists(path)] *)
Definition exists_ (path : string) (fs : filesystem) : bool :=
  bool_decide (is_Some (files fs !! path)).

(** [with open(path, "w") as f: csv.writer(f).writerow(row)] *)
Definition create_with_row (path : string) (row : list cell) (fs : filesystem)
    : filesystem :=
  {| files := <[path := [row]]> (files fs);
     writes := writes fs ++ [(path, row)] |}.

Definition write_header_if_needed (path : string) (fs : filesystem) : filesystem :=
  if exists_ path fs then fs
  else create_with_row path (map Str CSV_HEADER) fs.

(** Mode ["a"] creates the file when it is missing. *)
Definition append_row (path : string) (row : list cell) (fs : filesystem)
    : filesystem :=
  {| files := <[path := default [] (files fs !! path) ++ [row]]> (files fs);
     writes := writes fs ++ [(path, row)] |}.

(** The body of the [for seg in SEGMENTS] loop of [capture_session]. *)
Definition append_segment (readings : gmap string (option angles))
    (row : list cell) (seg : string) : list cell :=
  match mjoin (readings !! seg) with
  | Some a => (row ++ [Num (pitch a)]) ++ [Num (roll a)]
  | None => (row ++ [Null]) ++ [Null]
  end.

(** Lines 94-102: one snapshot flattened into one row. *)
Definition flatten_row (timestamp : Q) (label : string)
    (readings : gmap string (option angles)) : list cell :=
  fold_left (append_segment readings) SEGMENTS [Num timestamp; Str label].

(** What one turn of the capture loop meets: the clock read by the loop
    condition, the snapshot [read_all_imus()] returned, and the clock
    read for the timestamp. *)
Record sample : Type := {
  cond_time : Q;
  snapshot : gmap string (option angles);
  stamp_time : Q
}.

(** The [while time() - start < CAPTURE_SEC] loop, against a finite
    prefix of samples. *)
Fixpoint capture_loop (label : string) (start : Q) (samples : list sample)
    (fs : filesystem) (count : nat) : filesystem * nat :=
  match samples with
  | [] => (fs, count)
  | smp :: rest =>
      if negb (Qle_bool CAPTURE_SEC (cond_time smp - start)) then
        let timestamp := round (stamp_time smp) 4 in
        let row := flatten_row timestamp label (snapshot smp) in
        capture_loop label start rest (append_row CSV_FILE row fs) (S count)
      else (fs, count)
  end.

Definition capture_session (label : string) (start : Q) (samples : list sample)
    (fs : filesystem) : filesystem * nat :=
  let fs := write_header_if_needed CSV_FILE fs in
  capture_loop label start samples fs 0.

End DataCollection.

(** ** training.py *)

Module Training.

Definition SEGMENTS : list string :=
  [ "left_thigh";
    "left_calf";
    "right_thigh";
    "right_calf";
    "upper_mid_back";
    "upper_back";
    "right_shoulder";
    "left_shoulder";
    "lower_mid_back";
    "lower_back" ].

Definition FEATURE_COLS : list string :=
  flat_map (fun seg => map (fun angle => seg +:+ "_" +:+ angle) [ "pitch"; "roll" ])
           SEGMENTS.

(** The saved bundle. The classifier and the label encoder are opaque:
    [model.predict] maps a feature row to an encoded label and
    [encoder.inverse_transform] decodes it. *)
Record model_package : Type := {
  model : list Q -> Z;
  feature_cols : list string;
  encoder : Z -> string
}.

Definition save_model_package (model : list Q -> Z) (encoder : Z -> string)
    : model_package :=
  {| model := model; feature_cols := FEATURE_COLS; encoder := encoder |}.

End Training.

(** ** deploy.py *)

Module Deploy.
Import Py ImuReader Training.

Definition LCD_COLS : nat := 16.
Definition BEEP_SHORT : Q := 1 # 10.
Definition BEEP_PAUSE : Q := 2 # 10.
Definition SAMPLE_INTERVAL : Q := 1.
Definition COOLDOWN_SEC : Q := 60.

(** What the program does to the buzzer, the display and the clock.
    Console output is left out. *)
Inductive effect : Type :=
| BuzzerOn
| BuzzerOff
| Sleep (seconds : Q)
| LcdClear
| LcdBlink (on : bool)
| LcdSetPos (row col : Z)
| LcdWrite (text : string).

Fixpoint beep (n : nat) : list effect :=
  match n with
  | O => []
  | S n' => [BuzzerOn; Sleep BEEP_SHORT; BuzzerOff; Sleep BEEP_PAUSE] ++ beep n'
  end.

Definition lcd_show (line0 line1 : string) : list effect :=
  [ LcdClear;
    LcdSetPos 0 0; LcdWrite (take LCD_COLS line0);
    LcdSetPos 1 0; LcdWrite (take LCD_COLS line1) ].

Definition lcd_draw_menu (cursor_pos : Z) : list effect :=
  let '(line0, line1) :=
    if (cursor_pos =? 0)%Z
    then ("> A: Check Now ", "  B: Continuous")
    else ("  A: Check Now ", "> B: Continuous") in
  [ LcdClear; LcdBlink true;
    LcdSetPos 0 0; LcdWrite (take LCD_COLS line0);
    LcdSetPos 1 0; LcdWrite (take LCD_COLS line1);
    LcdSetPos cursor_pos 0 ].

(** *** Inference *)

(** [readings.get(seg)], where a stored [None] and a missing key look
    the same. *)
Definition get (readings : gmap string (option angles)) (seg : string)
    : option angles :=
  mjoin (readings !! seg).

(** Lines 212 and 213: the segment and the angle a column name is
    taken to stand for. *)
Definition column_segment (col : string) : string :=
  join "_" (but_last (split "_" col)).

Definition column_angle (col : string) : string :=
  last_item (split "_" col).

(** The [for col in feature_cols] loop of [predict_posture]: [Ret None]
    is the early [return None], [Raise] a [KeyError] of [angles[angle]]. *)
Fixpoint build_row (cols : list string) (readings : gmap string (option angles))
    (row : gmap string Q) : outcome (option (gmap string Q)) :=
  match cols with
  | [] => Ret (Some row)
  | col :: rest =>
      let seg := column_segment col in
      let angle := column_angle col in
      match get readings seg with
      | None => Ret None
      | Some angles =>
          match angles_get angles angle with
          | Raise e => Raise e
          | Ret v => build_row rest readings (<[col := v]> row)
          end
      end
  end.

(** [pd.DataFrame([row], columns=feature_cols)]: the one row, in the
    order of [feature_cols]. *)
Definition data_frame (row : gmap string Q) (columns : list string) : list Q :=
  map (fun col => default 0%Q (row !! col)) columns.

(** [predict_posture] from the point where the snapshot has been read. *)
Definition predict_from (pkg : model_package)
    (readings : gmap string (option angles)) : outcome (option string) :=
  match build_row (feature_cols pkg) readings ∅ with
  | Raise e => Raise e
  | Ret None => Ret None
  | Ret (Some row) =>
      let X_row := data_frame row (feature_cols pkg) in
      let pred_encoded := model pkg X_row in
      Ret (Some (encoder pkg pred_encoded))
  end.

Definition predict_posture `{Libm} (env : environment) (pkg : model_package)
    : M (option string) :=
  readings ← read_all_imus env ;
  lift (predict_from pkg readings).

(** *** Modes *)

(** [check_now], given what [predict_posture()] returned. *)
Definition check_now (label : option string) : list effect :=
  lcd_show "Checking..." "Hold still" ++
  match label with
  | None => lcd_show "Sensor error" "Try again"
  | Some label =>
      let is_good := contains "good" label in
      lcd_show label (if is_good then "Good!" else "Fix posture") ++
      (if is_good then beep 2 else beep 1)
  end.

(** What one turn of a polling loop can observe: the two button levels,
    what [predict_posture()] returns and what [time()] returns. *)
Record observation : Type := {
  nav_pressed : bool;
  sel_pressed : bool;
  prediction : option string;
  now : Q
}.

(** One turn of the [while True] loop of [continuous_mode]: the clock
    value it read (if it got that far), what it did, and the
    [last_alert] it hands to the next turn, [None] when the function
    returned. *)
Record iteration : Type := {
  clock : option Q;
  effects : list effect;
  carry : option Q
}.

Definition monitor_iter (last_alert : Q) (o : observation) : iteration :=
  if sel_pressed o then
    {| clock := None;
       effects := [Sleep (2 # 10)] ++ lcd_show "Stopped" "";
       carry := None |}
  else
    match prediction o with
    | None =>
        {| clock := None;
           effects := [Sleep SAMPLE_INTERVAL];
           carry := Some last_alert |}
    | Some label =>
        let is_good := contains "good" label in
        let now := now o in
        let shown := lcd_show label (if is_good then "OK" else "Fix posture") in
        if negb is_good && Qle_bool COOLDOWN_SEC (now - last_alert) then
          {| clock := Some now;
             effects := shown ++ beep 1 ++ [Sleep SAMPLE_INTERVAL];
             carry := Some now |}
        else
          {| clock := Some now;
             effects := shown ++ [Sleep SAMPLE_INTERVAL];
             carry := Some last_alert |}
    end.

Fixpoint continuous_loop (last_alert : Q) (obs : list observation)
    : list iteration :=
  match obs with
  | [] => []
  | o :: rest =>
      let it := monitor_iter last_alert o in
      it :: match carry it with
            | None => []
            | Some last_alert' => continuous_loop last_alert' rest
            end
  end.

(** [continuous_mode], run against a finite prefix of observations. *)
Definition continuous_mode (obs : list observation) : list effect * list iteration :=
  let last_alert := 0%Q in
  (lcd_show "Monitoring..." "SEL to stop", continuous_loop last_alert obs).

(** Did the buzzer sound during this turn, and the clock values of the
    turns in which it did. *)
Definition is_buzzer_on (e : effect) : bool :=
  match e with BuzzerOn => true | _ => false end.

Definition sounded (it : iteration) : bool := existsb is_buzzer_on (effects it).

Definition alert_times (its : list iteration) : list Q :=
  omap (fun it => if sounded it then clock it else None) its.

(** *** The menu and the main loop as a machine

    Control points of [main] once start-up has succeeded: the two
    button tests of [run_lcd_menu] (lines 179 and 185) with the local
    [cursor], the call of [check_now], and the head of the loop of
    [continuous_mode] with the local [last_alert]; and the end of the
    program by an exception nothing catches. *)
Inductive control : Type :=
| MenuNav (cursor : Z)
| MenuSel (cursor : Z)
| InCheck
| InMonitor (last_alert : Q)
| Crashed (e : exn).

(** What one turn of [main] meets: the observation, whose [prediction]
    is what [predict_posture()] returns when it returns, and the
    exception [predict_posture()] raises instead when it does not.
    [predict_posture], [check_now], [continuous_mode] and [main] (lines
    329-337) have no handler around it. *)
Record turn : Type := {
  seen : observation;
  raised : option exn
}.

Definition returns (o : observation) : turn :=
  {| seen := o; raised := None |}.

(** The turn in which the buttons and the clock read as given and
    [predict_posture()] ends as [result]. *)
Definition turn_of (nav sel : bool) (result : outcome (option string)) (now : Q)
    : turn :=
  match result with
  | Ret label =>
      returns {| nav_pressed := nav; sel_pressed := sel;
                 prediction := label; now := now |}
  | Raise e =>
      {| seen := {| nav_pressed := nav; sel_pressed := sel;
                    prediction := None; now := now |};
         raised := Some e |}
  end.

(** Where [main] goes with the string [run_lcd_menu] returned. *)
Definition dispatch (choice : string) : control * list effect :=
  if String.eqb choice "check" then (InCheck, [])
  else if String.eqb choice "continuous" then
    (InMonitor 0, lcd_show "Monitoring..." "SEL to stop")
  else (MenuNav 0, lcd_draw_menu 0).

Definition step (c : control) (t : turn) : control * list effect :=
  let o := seen t in
  match c with
  | MenuNav cursor =>
      if nav_pressed o then
        let cursor := if (cursor =? 0)%Z then 1%Z else 0%Z in
        (MenuSel cursor, lcd_draw_menu cursor ++ [Sleep (3 # 10)])
      else (MenuSel cursor, [])
  | MenuSel cursor =>
      if sel_pressed o then
        let choice := if (cursor =? 0)%Z then "check" else "continuous" in
        let '(c', shown) := dispatch choice in
        (c', [LcdBlink false; Sleep (2 # 10)] ++ shown)
      else (MenuNav cursor, [Sleep (5 # 100)])
  | InCheck =>
      (* [check_now()], then [sleep(2.0)] and the menu again; the
         exception of [predict_posture()] comes after the first screen *)
      match raised t with
      | Some e => (Crashed e, lcd_show "Checking..." "Hold still")
      | None =>
          (MenuNav 0, check_now (prediction o) ++ [Sleep 2] ++ lcd_draw_menu 0)
      end
  | InMonitor last_alert =>
      (* the select button is tested before [predict_posture()] is called *)
      match (if sel_pressed o then None else raised t) with
      | Some e => (Crashed e, [])
      | None =>
          let it := monitor_iter last_alert o in
          match carry it with
          | None => (MenuNav 0, effects it ++ lcd_draw_menu 0)
          | Some last_alert' => (InMonitor last_alert', effects it)
          end
      end
  | Crashed e => (Crashed e, [])
  end.

(** [main] after the start-up splash, against a finite prefix of
    turns. *)
Definition initial : control := MenuNav 0.

Fixpoint run (c : control) (turns : list turn) : control * list effect :=
  match turns with
  | [] => (c, [])
  | t :: rest =>
      let '(c', out) := step c t in
      let '(c'', out') := run c' rest in
      (c'', out ++ out')
  end.

End Deploy.

(** ** The design document's vocabulary *)

Module Spec.
Import ImuReader.

(** The Mode Controller's states and the events that move it. *)
Inductive Cursor : Type := A | B.

Inductive ModeState : Type :=
| MenuBrowsing (cursor : Cursor)
| CheckingOnce
| Monitoring.

Inductive Event : Type :=
| Navigate          (* a press of the navigate button *)
| Select            (* a press of the select button *)
| CheckDone.        (* the one-shot check has finished *)

Definition toggle (c : Cursor) : Cursor :=
  match c with A => B | B => A end.

(** The transitions the document lists. *)
Inductive transition : ModeState -> Event -> ModeState -> Prop :=
| nav_toggles c :
    transition (MenuBrowsing c) Navigate (MenuBrowsing (toggle c))
| select_check :
    transition (MenuBrowsing A) Select CheckingOnce
| select_monitor :
    transition (MenuBrowsing B) Select Monitoring
| check_returns :
    transition CheckingOnce CheckDone (MenuBrowsing A)
| monitor_stops :
    transition Monitoring Select (MenuBrowsing A).

(** How the control points of [deploy.main] are read as mode states
    (the ended program is none of them), and which event a turn
    consumes. *)
Definition cursor_of (cursor : Z) : Cursor :=
  if (cursor =? 0)%Z then A else B.

Definition mode_of (c : Deploy.control) : option ModeState :=
  match c with
  | Deploy.MenuNav cursor | Deploy.MenuSel cursor =>
      Some (MenuBrowsing (cursor_of cursor))
  | Deploy.InCheck => Some CheckingOnce
  | Deploy.InMonitor _ => Some Monitoring
  | Deploy.Crashed _ => None
  end.

Definition event_of (c : Deploy.control) (o : Deploy.observation) : option Event :=
  match c with
  | Deploy.MenuNav _ => if Deploy.nav_pressed o then Some Navigate else None
  | Deploy.MenuSel _ => if Deploy.sel_pressed o then Some Select else None
  | Deploy.InCheck => Some CheckDone
  | Deploy.InMonitor _ => if Deploy.sel_pressed o then Some Select else None
  | Deploy.Crashed _ => None
  end.

(** The exception that reaches [predict_posture()]'s caller in a turn:
    the one-shot check always calls it, a monitoring turn calls it unless
    select is held, the menu never does. *)
Definition uncaught (c : Deploy.control) (t : Deploy.turn) : option Py.exn :=
  match c with
  | Deploy.InCheck => Deploy.raised t
  | Deploy.InMonitor _ =>
      if Deploy.sel_pressed (Deploy.seen t) then None else Deploy.raised t
  | _ => None
  end.

(** A multiplexer that acknowledges no write: every [bus.write_byte]
    raises. *)
Definition dead_mux (answers : sensor_id -> sensor_outcome) : environment :=
  {| tca_ack := fun _ _ => false; sensor := answers |}.

(** Slot [k] of the 20-slot feature vector: segment [k / 2] of the
    Segment list, pitch for even [k] and roll for odd [k]. *)
Definition slot_segment (segments : list string) (k : nat) : string :=
  nth (k / 2) segments "".

Definition slot_angle (k : nat) : string :=
  if Nat.even k then "pitch" else "roll".

Definition slot_name (segments : list string) (k : nat) : string :=
  slot_segment segments k +:+ "_" +:+ slot_angle k.

Definition slot_value (segments : list string)
    (snapshot : gmap string (option angles)) (k : nat) : option Q :=
  match mjoin (snapshot !! slot_segment segments k) with
  | Some a => Some (if Nat.even k then pitch a else roll a)
  | None => None
  end.

(** [toPartialVector]: nulls where the segment is Unavailable. *)
Definition toPartialVector (segments : list string)
    (snapshot : gmap string (option angles)) : list (option Q) :=
  map (slot_value segments snapshot) (seq 0 20).

(** [toCompleteVector]: the same flattening, or nothing when a slot is
    null. *)
Definition toCompleteVector (segments : list string)
    (snapshot : gmap string (option angles)) : option (list Q) :=
  mapM id (toPartialVector segments snapshot).

(** The two slots of one segment, and the column names of a Segment
    list, segment by segment. *)
Definition segment_slots (snapshot : gmap string (option angles)) (seg : string)
    : list (option Q) :=
  [ pitch <$> mjoin (snapshot !! seg); roll <$> mjoin (snapshot !! seg) ].

Definition columns_of (segments : list string) : list string :=
  flat_map (fun seg => [ seg +:+ "_pitch"; seg +:+ "_roll" ]) segments.

(** What a column name selects from a snapshot, read the way
    [predict_posture] reads it. *)
Definition column_value (snapshot : gmap string (option angles)) (col : string)
    : option Q :=
  match Deploy.get snapshot (Deploy.column_segment col) with
  | Some a =>
      match angles_get a (Deploy.column_angle col) with
      | Py.Ret v => Some v
      | Py.Raise _ => None
      end
  | None => None
  end.

(** A nullable slot as a CSV cell. *)
Definition cell_of (x : option Q) : DataCollection.cell :=
  match x with
  | Some v => DataCollection.Num v
  | None => DataCollection.Null
  end.

(** A sampling pass with a multiplexer that acknowledges every write:
    the only thing left to vary is what each sensor answers. *)
Definition healthy_mux (answers : sensor_id -> sensor_outcome) : environment :=
  {| tca_ack := fun _ _ => true; sensor := answers |}.

(** The ten sensors with the segment each one stands for, in the order
    [read_all_imus] visits them. *)
Definition sensors : list (string * sensor_id) :=
  map (fun '(channel, seg) => (seg, OnChannel channel)) TCA_CHANNEL_MAP ++
  map (fun '(address, seg) => (seg, Direct address)) DIRECT_ADDRESS_MAP.

Definition failing (o : sensor_outcome) : bool :=
  match o with Accel _ _ _ => false | _ => true end.

(** What a sensor's answer becomes in the snapshot. *)
Definition reading_of `{Libm} (o : sensor_outcome) : option angles :=
  match o with
  | Accel ax ay az =>
      let '(pitch, roll) := compute_angles ax ay az in
      Some {| pitch := Py.round pitch 3; roll := Py.round roll 3 |}
  | _ => None
  end.

(** The document's angle formulas: [atan2] gives radians, and degrees
    are radians times 180 over pi. *)
Definition degrees `{Libm} (radians : Q) : Q := (radians * 180 / pi)%Q.

Definition angle_pitch `{Libm} (ax ay az : Q) : Q :=
  degrees (atan2 (- ax) (sqrt (ay ^ 2 + az ^ 2))).

Definition angle_roll `{Libm} (ay az : Q) : Q :=
  degrees (atan2 ay az).

(** [read(segment)]: the read path a sensor is on. *)
Definition read_sensor `{Libm} (env : environment) (s : sensor_id)
    : M (option angles) :=
  match s with
  | OnChannel channel => read_tca_imu env channel
  | Direct address => read_direct_imu env address
  end.

(** Entries of a snapshot that are Unavailable, and that are valid. *)
Definition is_unavailable (snapshot : gmap string (option angles)) (seg : string)
    : bool :=
  match snapshot !! seg with Some (Some _) => false | _ => true end.

Definition is_valid (snapshot : gmap string (option angles)) (seg : string)
    : bool :=
  match snapshot !! seg with Some (Some _) => true | _ => false end.

(** The bus operations of one multiplexed read that lie between the
    opening write and the last closing write. *)
Definition between_open_and_close (channel : Z) (op : bus_op) : Prop :=
  op = MpuInit (OnChannel channel) \/ op = MpuAccel (OnChannel channel) \/
  op = TcaWrite 0.

(** The [writerow] calls a capture session added to the log. *)
Definition session_writes (before after : DataCollection.filesystem)
    : list (string * list DataCollection.cell) :=
  drop (length (DataCollection.writes before)) (DataCollection.writes after).

Definition header_row : list DataCollection.cell :=
  map DataCollection.Str DataCollection.CSV_HEADER.

(** A segment is Unavailable in a snapshot when it has no reading. *)
Definition unavailable (snapshot : gmap string (option angles)) (seg : string)
    : Prop :=
  mjoin (snapshot !! seg) = None.

(** The number of values of [ts] inside the window [[w, w + len)]. *)
Definition in_window (w len t : Q) : bool :=
  Qle_bool w t && negb (Qle_bool (w + len) t).

Definition alerts_in_window (w len : Q) (ts : list Q) : nat :=
  length (List.filter (in_window w len) ts).

(** Successive values at least [gap] apart, the first one at least [gap]
    after [lo]. *)
Fixpoint spaced (gap lo : Q) (ts : list Q) : Prop :=
  match ts with
  | [] => True
  | t :: rest => (lo + gap <= t)%Q /\ spaced gap t rest
  end.

(** A turn of the monitoring loop in which no button is held and the
    classifier answers [label] at time [t]. *)
Definition classified (label : string) (t : Q) : Deploy.observation :=
  {| Deploy.nav_pressed := false; Deploy.sel_pressed := false;
     Deploy.prediction := Some label; Deploy.now := t |}.

End Spec.

(** ** Concrete inputs, for running the model *)

Module Samples.
Import Py ImuReader.

(** A stand-in for libm: no statement below depends on its values. *)
Definition coarse_libm : Libm :=
  {| atan2 := fun y x => (y - x)%Q; sqrt := fun x => x; pi := 3 |}.

Definition level : angles := {| pitch := 0; roll := 0 |}.

(** A snapshot with all ten segments read, and one with the lower back
    missing. *)
Definition all_present : gmap string (option angles) :=
  list_to_map (map (fun seg => (seg, Some level)) DataCollection.SEGMENTS).

Definition lower_back_missing : gmap string (option angles) :=
  <["lower_back" := None]> all_present.

(** Every sensor at rest, flat. *)
Definition at_rest (s : sensor_id) : sensor_outcome := Accel 0 0 1.

(** The same, with the sensor behind channel 3 gone. *)
Definition channel_3_absent (s : sensor_id) : sensor_outcome :=
  match s with
  | OnChannel 3 => DeviceAbsent
  | _ => Accel 0 0 1
  end.

(** A CSV file left by an earlier session, and one sample. *)
Definition after_first_session : DataCollection.filesystem :=
  {| DataCollection.files :=
       {[ DataCollection.CSV_FILE :=
            [map DataCollection.Str DataCollection.CSV_HEADER] ]};
     DataCollection.writes := [] |}.

Definition no_file_yet : DataCollection.filesystem :=
  {| DataCollection.files := ∅; DataCollection.writes := [] |}.

Definition one_sample : DataCollection.sample :=
  {| DataCollection.cond_time := 1;
     DataCollection.snapshot := all_present;
     DataCollection.stamp_time := 1 |}.

(** Observations with no button held, and with select held. *)
Definition idle : Deploy.observation :=
  {| Deploy.nav_pressed := false; Deploy.sel_pressed := false;
     Deploy.prediction := None; Deploy.now := 0 |}.

Definition press_select : Deploy.observation :=
  {| Deploy.nav_pressed := false; Deploy.sel_pressed := true;
     Deploy.prediction := None; Deploy.now := 0 |}.

End Samples.

(** ** Measures on traces, for the statements about whole passes and runs *)

Module Measures.
Import Py ImuReader.




End Measures.


(** ** deploy.py: [run_lcd_menu] as a loop, and measures on its effects *)

Module Menu.
Import Py Deploy.





End Menu.

Module Signals.
Import Py Deploy.








End Signals.


(** ** data_collection.py: what a session keeps *)

Module Capture.
Import Py DataCollection.




End Capture.


Module Cases.
Import Py.



End Cases.

(** * Properties *)

(** ** Python builtins *)

Section PyFacts.
Import Py.

Lemma split_nonempty sep s : split sep s <> [].
Proof.
  destruct s as [|c s]; simpl; [discriminate|].
  destruct (Ascii.eqb c sep); [discriminate|].
  destruct (split sep s); discriminate.
Qed.

(** A string without the separator is a single token. *)
Lemma split_free sep s : free_of sep s = true -> split sep s = [s].
Proof.
  induction s as [|c s IH]; simpl; [reflexivity|].
  intros [Hc Hs]%andb_prop.
  apply negb_true_iff in Hc. rewrite Hc, (IH Hs). reflexivity.
Qed.

Lemma split_snoc sep s a :
  free_of sep a = true ->
  split sep (s +:+ String sep a) = split sep s ++ [a].
Proof.
  intros Ha. induction s as [|c s IH]; simpl.
  - rewrite Ascii.eqb_refl, (split_free _ _ Ha). reflexivity.
  - destruct (Ascii.eqb c sep); rewrite IH; [reflexivity|].
    pose proof (split_nonempty sep s) as Hne.
    destruct (split sep s); [contradiction|reflexivity].
Qed.

Lemma join_split sep s : join (String sep "") (split sep s) = s.
Proof.
  unfold join. induction s as [|c s IH]; simpl; [reflexivity|].
  pose proof (split_nonempty sep s) as Hne.
  destruct (Ascii.eqb_spec c sep) as [->|Hc].
  - destruct (split sep s) as [|w ws]; [contradiction|].
    simpl in *. rewrite IH. reflexivity.
  - destruct (split sep s) as [|w ws]; [contradiction|].
    simpl in *. destruct ws; simpl in *; rewrite <- IH; reflexivity.
Qed.

Lemma but_last_snoc l a : but_last (l ++ [a]) = l.
Proof. apply removelast_last. Qed.

Lemma last_item_snoc l a : last_item (l ++ [a]) = a.
Proof. apply last_last. Qed.

(** The column parser of [predict_posture] undoes [f"{seg}_{angle}"]
    whenever the angle name has no underscore, whatever the segment
    name looks like. *)
Lemma parse_column seg angle :
  free_of "_" angle = true ->
  join "_" (but_last (split "_" (seg +:+ "_" +:+ angle))) = seg /\
  last_item (split "_" (seg +:+ "_" +:+ angle)) = angle.
Proof.
  intros Ha. change ("_" +:+ angle) with (String "_" angle).
  rewrite (split_snoc _ _ _ Ha), but_last_snoc, last_item_snoc.
  split; [apply join_split|reflexivity].
Qed.

(** [round] does not look at how the rational is written, and lands on
    the nearest multiple of the last digit kept. *)
Lemma round_half_even_scale (n : Z) (d k : positive) :
  round_half_even ((n * Z.pos k) # (d * k)) = round_half_even (n # d).
Proof.
  unfold round_half_even. cbn [Qnum Qden].
  rewrite Pos2Z.inj_mul.
  rewrite Z.div_mul_cancel_r by lia.
  rewrite Z.mul_mod_distr_r by lia.
  replace (2 * (n mod Z.pos d * Z.pos k))%Z with (2 * (n mod Z.pos d) * Z.pos k)%Z by ring.
  rewrite <- Zmult_compare_compat_r by lia. reflexivity.
Qed.

Lemma round_half_even_compat (x y : Q) :
  (x == y)%Q -> round_half_even x = round_half_even y.
Proof.
  destruct x as [a b], y as [c d]. unfold Qeq. cbn [Qnum Qden]. intros Heq.
  rewrite <- (round_half_even_scale a b d), <- (round_half_even_scale c d b).
  rewrite Heq, (Pos.mul_comm b d). reflexivity.
Qed.

Lemma round_compat (x y : Q) (ndigits : Z) :
  (x == y)%Q -> round x ndigits = round y ndigits.
Proof.
  intros Heq. unfold round. destruct (0 <=? ndigits)%Z.
  - f_equal. apply round_half_even_compat. rewrite Heq. reflexivity.
  - do 2 f_equal. apply round_half_even_compat. rewrite Heq. reflexivity.
Qed.

Lemma round_half_even_near (x : Q) :
  (x - (1 # 2) <= inject_Z (round_half_even x) <= x + (1 # 2))%Q.
Proof.
  destruct x as [n d]. unfold round_half_even, Qle, Qminus, Qplus, Qopp, inject_Z.
  cbn [Qnum Qden].
  pose proof (Z.div_mod n (Z.pos d) ltac:(lia)) as Hdiv.
  pose proof (Z.mod_pos_bound n (Z.pos d) ltac:(lia)) as Hmod.
  set (lo := (n / Z.pos d)%Z) in *. set (r := (n mod Z.pos d)%Z) in *.
  rewrite !Pos2Z.inj_mul.
  destruct (Z.compare_spec (2 * r) (Z.pos d)) as [He|Hl|Hg];
    [destruct (Z.even lo)|..]; nia.
Qed.

Lemma round_3_decimals (x : Q) :
  (exists k : Z, round x 3 = k # 1000) /\
  (x - (1 # 2000) <= round x 3 <= x + (1 # 2000))%Q.
Proof.
  split; [eexists; reflexivity|].
  change (round x 3) with (round_half_even (x * inject_Z 1000) # 1000).
  pose proof (round_half_even_near (x * inject_Z 1000)) as Hnear.
  rewrite (Qmake_Qdiv (round_half_even (x * inject_Z 1000)) 1000).
  set (m := inject_Z (round_half_even (x * inject_Z 1000))) in *.
  change (inject_Z 1000) with 1000%Q in *. change (inject_Z (Z.pos 1000)) with 1000%Q.
  clearbody m. destruct Hnear.
  unfold Qdiv. change (/ 1000)%Q with (1 # 1000)%Q. split; lra.
Qed.
End PyFacts.

(** ** Feature assembly: the row of [predict_posture] *)

Section RowFacts.
Import Py ImuReader Training Deploy Spec.

Implicit Types (readings : gmap string (option angles)) (row : gmap string Q).

Lemma columns_of_segments : FEATURE_COLS = columns_of SEGMENTS.
Proof. reflexivity. Qed.

Lemma column_segment_pitch seg : column_segment (seg +:+ "_pitch") = seg.
Proof. apply (parse_column seg "pitch"). reflexivity. Qed.

Lemma column_segment_roll seg : column_segment (seg +:+ "_roll") = seg.
Proof. apply (parse_column seg "roll"). reflexivity. Qed.

Lemma column_angle_pitch seg : column_angle (seg +:+ "_pitch") = "pitch".
Proof. apply (parse_column seg "pitch"). reflexivity. Qed.

Lemma column_angle_roll seg : column_angle (seg +:+ "_roll") = "roll".
Proof. apply (parse_column seg "roll"). reflexivity. Qed.

Lemma column_value_pitch readings seg :
  column_value readings (seg +:+ "_pitch") = pitch <$> get readings seg.
Proof.
  unfold column_value.
  rewrite column_segment_pitch, column_angle_pitch.
  destruct (get readings seg); reflexivity.
Qed.

Lemma column_value_roll readings seg :
  column_value readings (seg +:+ "_roll") = roll <$> get readings seg.
Proof.
  unfold column_value.
  rewrite column_segment_roll, column_angle_roll.
  destruct (get readings seg); reflexivity.
Qed.

(** Whatever the column list, a row that gets built holds, under every
    column of the list, what that column selects from the snapshot. *)
Lemma build_row_lookup cols : forall readings row row',
  build_row cols readings row = Ret (Some row') ->
  forall c, row' !! c =
            if decide (c ∈ cols) then column_value readings c else row !! c.
Proof.
  induction cols as [|col cols IH]; intros readings row row' Hb c; simpl in Hb.
  - injection Hb as <-. rewrite decide_False by apply not_elem_of_nil. reflexivity.
  - destruct (get readings (column_segment col)) as [a|] eqn:Hseg; [|discriminate].
    destruct (angles_get a (column_angle col)) as [v|e] eqn:Hang; [|discriminate].
    rewrite (IH _ _ _ Hb c).
    destruct (decide (c ∈ cols)) as [Hin|Hin].
    + rewrite decide_True by (right; exact Hin). reflexivity.
    + destruct (decide (c = col)) as [->|Hne].
      * rewrite decide_True by left. rewrite lookup_insert_eq.
        unfold column_value. rewrite Hseg, Hang. reflexivity.
      * rewrite decide_False by (intros [?|?]%elem_of_cons; contradiction).
        rewrite lookup_insert_ne by congruence. reflexivity.
Qed.

Lemma data_frame_built cols readings row row' :
  build_row cols readings row = Ret (Some row') ->
  data_frame row' cols = map (fun c => default 0%Q (column_value readings c)) cols.
Proof.
  intros Hb. unfold data_frame. apply map_ext_in. intros c Hc.
  rewrite (build_row_lookup _ _ _ _ Hb c).
  rewrite decide_True by (apply list_elem_of_In; exact Hc). reflexivity.
Qed.

(** On the columns of a Segment list the loop stops with [None] at the
    first Unavailable segment and cannot raise. *)
Lemma build_row_unavailable segs : forall readings row,
  Exists (unavailable readings) segs ->
  build_row (columns_of segs) readings row = Ret None.
Proof.
  induction segs as [|seg segs IH]; intros readings row Hex.
  - inversion Hex.
  - cbn [columns_of flat_map app build_row].
    rewrite column_segment_pitch, column_angle_pitch.
    destruct (get readings seg) as [a|] eqn:Hseg; [|reflexivity].
    cbn [angles_get String.eqb Ascii.eqb Bool.eqb].
    rewrite column_segment_roll, column_angle_roll, Hseg.
    cbn [angles_get String.eqb Ascii.eqb Bool.eqb].
    apply IH. inversion Hex as [? ? Hu|]; subst; [|assumption].
    unfold unavailable in Hu. unfold get in Hseg. congruence.
Qed.

Lemma build_row_available segs : forall readings row,
  Forall (fun seg => ~ unavailable readings seg) segs ->
  exists row', build_row (columns_of segs) readings row = Ret (Some row').
Proof.
  induction segs as [|seg segs IH]; intros readings row Hall.
  - eexists. reflexivity.
  - cbn [columns_of flat_map app build_row].
    rewrite column_segment_pitch, column_angle_pitch.
    inversion Hall as [|? ? Hseg Hrest]; subst.
    unfold unavailable in Hseg. fold (get readings seg) in Hseg.
    destruct (get readings seg) as [a|] eqn:Ha; [|contradiction].
    cbn [angles_get String.eqb Ascii.eqb Bool.eqb].
    rewrite column_segment_roll, column_angle_roll, Ha.
    cbn [angles_get String.eqb Ascii.eqb Bool.eqb].
    apply IH. assumption.
Qed.

End RowFacts.

(** ** Feature vectors: capture and inference *)

Section VectorFacts.
Import Py ImuReader Training Deploy Spec.

Implicit Types (readings : gmap string (option angles)) (row : gmap string Q).

Lemma partial_vector_by_segment readings :
  toPartialVector SEGMENTS readings = flat_map (segment_slots readings) SEGMENTS.
Proof. reflexivity. Qed.

Lemma complete_unavailable readings segs :
  Exists (unavailable readings) segs ->
  mapM id (flat_map (segment_slots readings) segs) = None.
Proof.
  induction 1 as [seg segs Hu|seg segs _ IH]; cbn [flat_map segment_slots app].
  - unfold unavailable in Hu. rewrite Hu. reflexivity.
  - destruct (mjoin (readings !! seg)); [|reflexivity].
    cbn. rewrite IH. reflexivity.
Qed.

Lemma complete_available readings segs :
  Forall (fun seg => ~ unavailable readings seg) segs ->
  mapM id (flat_map (segment_slots readings) segs) =
  Some (map (fun c => default 0%Q (column_value readings c)) (columns_of segs)).
Proof.
  induction 1 as [|seg segs Hseg _ IH]; [reflexivity|].
  cbn [flat_map segment_slots columns_of app map].
  rewrite column_value_pitch, column_value_roll.
  unfold unavailable in Hseg. unfold get.
  destruct (mjoin (readings !! seg)) as [a|]; [|contradiction].
  cbn. cbn in IH. rewrite IH. reflexivity.
Qed.

Lemma available_or_not readings segs :
  Forall (fun seg => ~ unavailable readings seg) segs \/
  Exists (unavailable readings) segs.
Proof.
  destruct (Forall_Exists_dec (fun seg => ~ unavailable readings seg)
              (unavailable readings)) with (l := segs) as [?|?]; auto.
  intros seg. unfold unavailable.
  destruct (mjoin (readings !! seg)); [left|right]; congruence.
Qed.

(** [predict_posture] on the artifact [training.py] saves is
    [toCompleteVector] followed by the classifier. *)
Lemma predict_from_complete model encoder readings :
  predict_from (save_model_package model encoder) readings =
  match toCompleteVector SEGMENTS readings with
  | Some v => Ret (Some (encoder (model v)))
  | None => Ret None
  end.
Proof.
  unfold predict_from, toCompleteVector.
  rewrite partial_vector_by_segment.
  cbn [feature_cols save_model_package Training.model Training.encoder].
  rewrite columns_of_segments.
  destruct (available_or_not readings SEGMENTS) as [Hall|Hex].
  - destruct (build_row_available _ readings ∅ Hall) as [row' Hrow].
    rewrite Hrow, (data_frame_built _ _ _ _ Hrow), (complete_available _ _ Hall).
    reflexivity.
  - rewrite (build_row_unavailable _ readings ∅ Hex), (complete_unavailable _ _ Hex).
    reflexivity.
Qed.

(** C4. The row assembly of [predict_posture], run with the feature
    columns [training.py] records, returns [None] if and only if at
    least one of the ten segments is Unavailable in the snapshot;
    otherwise it returns the label the classifier gives to the complete
    20-slot vector, so that whether it succeeds depends on no pitch or
    roll value. *)
Theorem predict_posture_none_iff_unavailable
    (model : list Q -> Z) (encoder : Z -> string) readings :
  (predict_from (save_model_package model encoder) readings = Ret None <->
   exists seg, seg ∈ SEGMENTS /\ unavailable readings seg) /\
  predict_from (save_model_package model encoder) readings =
    match toCompleteVector SEGMENTS readings with
    | Some v => Ret (Some (encoder (model v)))
    | None => Ret None
    end.
Proof.
  split; [|apply predict_from_complete].
  rewrite predict_from_complete. unfold toCompleteVector.
  rewrite partial_vector_by_segment.
  destruct (available_or_not readings SEGMENTS) as [Hall|Hex].
  - rewrite (complete_available _ _ Hall). split; [discriminate|].
    intros (seg & Hin & Hu). rewrite Forall_forall in Hall.
    exfalso. apply (Hall seg); assumption.
  - rewrite (complete_unavailable _ _ Hex). split; [|reflexivity].
    intros _. apply Exists_exists in Hex as (seg & Hin & Hu).
    exists seg. split; assumption.
Qed.

(** C10. For every segment name of the Segment list and each of the two
    angle names, the parser of [predict_posture] (all tokens but the
    last joined by underscores, and the last token) recovers the
    segment and the angle from the column name [seg_angle]; and a row
    that [predict_posture] builds from the recorded feature columns
    holds, under that column, that angle of that segment's reading. *)
Theorem column_name_selects_segment_angle
    (seg angle : string) readings row :
  seg ∈ SEGMENTS ->
  angle ∈ ["pitch"; "roll"] ->
  build_row FEATURE_COLS readings ∅ = Ret (Some row) ->
  column_segment (seg +:+ "_" +:+ angle) = seg /\
  column_angle (seg +:+ "_" +:+ angle) = angle /\
  (seg +:+ "_" +:+ angle) ∈ FEATURE_COLS /\
  exists a v, readings !! seg = Some (Some a) /\
              angles_get a angle = Ret v /\
              row !! (seg +:+ "_" +:+ angle) = Some v.
Proof.
  intros Hseg Hangle Hrow.
  assert (Hfree : free_of "_" angle = true).
  { apply list_elem_of_In in Hangle.
    destruct Hangle as [<-|[<-|[]]]; reflexivity. }
  destruct (parse_column seg angle Hfree) as [Hs Ha].
  fold (column_segment (seg +:+ "_" +:+ angle)) in Hs.
  fold (column_angle (seg +:+ "_" +:+ angle)) in Ha.
  assert (Hcol : (seg +:+ "_" +:+ angle) ∈ FEATURE_COLS).
  { apply list_elem_of_In. unfold FEATURE_COLS. apply in_flat_map.
    exists seg. split; [apply list_elem_of_In; exact Hseg|].
    apply (in_map (fun angle => seg +:+ "_" +:+ angle)).
    apply list_elem_of_In. exact Hangle. }
  split; [exact Hs|]. split; [exact Ha|]. split; [exact Hcol|].
  pose proof (build_row_lookup _ _ _ _ Hrow (seg +:+ "_" +:+ angle)) as Hl.
  rewrite decide_True in Hl by exact Hcol.
  destruct (available_or_not readings SEGMENTS) as [Hall|Hex].
  - rewrite Forall_forall in Hall.
    specialize (Hall seg Hseg).
    unfold unavailable in Hall.
    unfold column_value, get in Hl. rewrite Hs, Ha in Hl.
    destruct (readings !! seg) as [[a|]|] eqn:Hr; cbn in Hall, Hl;
      try contradiction.
    exists a.
    apply list_elem_of_In in Hangle.
    destruct Hangle as [<-|[<-|[]]]; cbn in Hl |- *; eauto.
  - rewrite columns_of_segments, (build_row_unavailable _ readings ∅ Hex) in Hrow.
    discriminate.
Qed.

Lemma column_name_selects_segment_angle_witness :
  exists row,
    build_row FEATURE_COLS Samples.all_present ∅ = Ret (Some row) /\
    column_segment "upper_mid_back_roll" = "upper_mid_back" /\
    column_angle "upper_mid_back_roll" = "roll" /\
    row !! "upper_mid_back_roll" = Some 0%Q.
Proof.
  destruct (build_row FEATURE_COLS Samples.all_present ∅) as [[row|]|e] eqn:Hrow;
    [|vm_compute in Hrow; discriminate Hrow..].
  exists row. split; [reflexivity|].
  destruct (column_name_selects_segment_angle
              "upper_mid_back" "roll" Samples.all_present row)
    as (Hs & Ha & _ & a & v & Hr & Hv & Hl).
  - apply list_elem_of_In. simpl. tauto.
  - apply list_elem_of_In. simpl. tauto.
  - exact Hrow.
  - split; [exact Hs|]. split; [exact Ha|].
    vm_compute in Hr. injection Hr as <-.
    vm_compute in Hv. injection Hv as <-. exact Hl.
Defined.

End VectorFacts.

(** ** data_collection.py: rows and header *)

Section CaptureFacts.
Import Py ImuReader DataCollection Spec.

Implicit Types (readings : gmap string (option angles)) (row : list cell)
               (fs : filesystem).

Lemma append_segment_slots readings row seg :
  append_segment readings row seg =
  row ++ map cell_of (segment_slots readings seg).
Proof.
  unfold append_segment, segment_slots.
  destruct (mjoin (readings !! seg)); cbn; rewrite <- app_assoc; reflexivity.
Qed.

Lemma fold_append_segment readings segs : forall row,
  fold_left (append_segment readings) segs row =
  row ++ map cell_of (flat_map (segment_slots readings) segs).
Proof.
  induction segs as [|seg segs IH]; intros row; cbn [fold_left flat_map].
  - rewrite app_nil_r. reflexivity.
  - rewrite IH, append_segment_slots, map_app, app_assoc. reflexivity.
Qed.

Lemma flatten_row_slots timestamp label readings :
  flatten_row timestamp label readings =
  Num timestamp :: Str label :: map cell_of (toPartialVector SEGMENTS readings).
Proof.
  unfold flatten_row. rewrite fold_append_segment. reflexivity.
Qed.

(** C7. For every snapshot the capture row is the timestamp, the label,
    and then the 20 slots of the partial vector: slot [k] is the pitch
    (even [k]) or roll (odd [k]) of segment [k / 2] of the Segment list,
    and null when that segment is Unavailable. The training feature
    columns are named from the same Segment list in the same order, and
    the CSV header is those names after [timestamp] and [label]. *)
Theorem capture_row_layout (timestamp : Q) (label : string) readings :
  flatten_row timestamp label readings =
    Num timestamp :: Str label ::
    map cell_of (toPartialVector SEGMENTS readings) /\
  length (toPartialVector SEGMENTS readings) = 20 /\
  SEGMENTS = Training.SEGMENTS /\
  Training.FEATURE_COLS = map (slot_name Training.SEGMENTS) (seq 0 20) /\
  CSV_HEADER = "timestamp" :: "label" :: Training.FEATURE_COLS.
Proof.
  split; [apply flatten_row_slots|repeat split; reflexivity].
Qed.

(** A data row is never the header row. *)
Lemma flatten_row_not_header timestamp label readings :
  flatten_row timestamp label readings <> header_row.
Proof.
  rewrite flatten_row_slots. discriminate.
Qed.

Lemma capture_loop_writes label start samples : forall fs count,
  exists rows,
    snd (capture_loop label start samples fs count) = (count + length rows)%nat /\
    Forall (fun row => exists smp, smp ∈ samples /\
              row = flatten_row (round (stamp_time smp) 4) label (snapshot smp))
           rows /\
    writes (fst (capture_loop label start samples fs count)) =
      writes fs ++ map (pair CSV_FILE) rows /\
    default [] (files (fst (capture_loop label start samples fs count)) !! CSV_FILE) =
      default [] (files fs !! CSV_FILE) ++ rows.
Proof.
  induction samples as [|smp samples IH]; intros fs count; cbn [capture_loop].
  - exists []. cbn. rewrite !app_nil_r, Nat.add_0_r. auto.
  - destruct (negb (Qle_bool CAPTURE_SEC (cond_time smp - start))).
    + destruct (IH (append_row CSV_FILE
                      (flatten_row (round (stamp_time smp) 4) label (snapshot smp)) fs)
                   (S count)) as (rows & Hn & Hrows & Hw & Hf).
      exists (flatten_row (round (stamp_time smp) 4) label (snapshot smp) :: rows).
      rewrite Hn, Hw, Hf. cbn [length map append_row writes files].
      rewrite lookup_insert_eq. cbn [from_option id].
      rewrite <- !app_assoc.
      split; [lia|]. split; [|split; reflexivity].
      constructor.
      * exists smp. split; [left|reflexivity].
      * eapply Forall_impl; [exact Hrows|].
        intros row (smp' & Hin & ->). exists smp'. split; [right; exact Hin|reflexivity].
    + exists []. cbn. rewrite !app_nil_r, Nat.add_0_r. auto.
Qed.

(** C8, as the code has it. A capture session writes the header row,
    which names the 22 columns, as its first write and before every data
    row exactly when the CSV file does not exist when the session
    starts; when the file exists the session writes no header at all:
    every row it writes is a data row appended to the file. *)
Theorem header_written_only_for_new_file label start samples fs :
  exists rows,
    snd (capture_session label start samples fs) = length rows /\
    Forall (fun row => row <> header_row /\ length row = length header_row) rows /\
    session_writes fs (fst (capture_session label start samples fs)) =
      (if exists_ CSV_FILE fs then [] else [(CSV_FILE, header_row)]) ++
      map (pair CSV_FILE) rows /\
    default [] (files (fst (capture_session label start samples fs)) !! CSV_FILE) =
      (if exists_ CSV_FILE fs then default [] (files fs !! CSV_FILE)
       else [header_row]) ++ rows /\
    header_row = map Str ("timestamp" :: "label" :: Training.FEATURE_COLS).
Proof.
  unfold capture_session.
  destruct (capture_loop_writes label start samples
              (write_header_if_needed CSV_FILE fs) 0) as (rows & Hn & Hrows & Hw & Hf).
  exists rows. rewrite Hn, Hf. unfold session_writes. rewrite Hw.
  split; [reflexivity|]. split.
  { eapply Forall_impl; [exact Hrows|]. intros row (smp & _ & ->).
    split; [apply flatten_row_not_header|].
    rewrite flatten_row_slots. reflexivity. }
  unfold write_header_if_needed.
  destruct (exists_ CSV_FILE fs) eqn:Hex.
  - rewrite drop_app_length. auto.
  - cbn [create_with_row writes files]. rewrite lookup_insert_eq.
    rewrite <- app_assoc, drop_app_length. auto.
Qed.

(** C8, as stated, fails: when the file is already there (here, left by
    an earlier session) the first and only write of the session is a
    data row. *)
Lemma first_write_not_header_when_file_exists :
  exists row,
    session_writes Samples.after_first_session
      (fst (capture_session "sitting_good" 0 [Samples.one_sample]
              Samples.after_first_session)) = [(CSV_FILE, row)] /\
    row <> header_row /\
    head (session_writes Samples.after_first_session
            (fst (capture_session "sitting_good" 0 [Samples.one_sample]
                    Samples.after_first_session)))
      <> Some (CSV_FILE, header_row).
Proof.
  eexists. split; [reflexivity|]. split; [apply flatten_row_not_header|].
  cbn [head]. discriminate.
Qed.

End CaptureFacts.


(** ** imu_reader.py: the sampling pass on the bus *)

Section AcquisitionFacts.
Import Py ImuReader Spec.
Context `{Libm}.

Implicit Types (env : environment) (h : list bus_op)
               (readings : gmap string (option angles)).

Ltac run_bus :=
  unfold read_tca_imu, read_direct_imu, try_except, mbind, M_bind, bind,
    select_channel, close_channels, write_byte, mpu_init, mpu_acceleration, ret.

Ltac exists_mid mid :=
  eexists _, mid; cbn [app];
  split; [reflexivity|];
  split; [repeat constructor; unfold between_open_and_close; auto|];
  split; [reflexivity|];
  split; [intros a Hr; first [discriminate Hr | assumption]|];
  split; assumption.

Lemma read_tca_healthy answers channel h :
  exists h', read_tca_imu (healthy_mux answers) channel h
             = (Ret (reading_of (answers (OnChannel channel))), h').
Proof.
  run_bus. cbn [healthy_mux tca_ack sensor].
  destruct (answers (OnChannel channel)); cbn; eauto.
Qed.

(** A direct read touches no multiplexer, so it returns whatever the
    environment. *)
Lemma read_direct_any env address h :
  exists h', read_direct_imu env address h
             = (Ret (reading_of (sensor env (Direct address))), h').
Proof.
  run_bus. destruct (sensor env (Direct address)); cbn; eauto.
Qed.

(** A loop over a table whose reads all return fills one entry per row
    of the table. *)
Lemma read_each_returns (read : Z -> M (option angles)) (f : Z -> option angles) :
  (forall key h, exists h', read key h = (Ret (f key), h')) ->
  forall table readings h,
  exists h', read_each read table readings h =
             (Ret (foldl (fun m '(key, seg) => <[seg := f key]> m) readings table), h').
Proof.
  intros Hread table. induction table as [|[key seg] table IH]; intros readings h.
  - eexists. reflexivity.
  - cbn [read_each foldl]. unfold mbind, M_bind, bind.
    destruct (Hread key h) as [h1 ->]. apply IH.
Qed.

(** When every entry is what its own sensor answered, the entries that
    are Unavailable are as many as the sensors that failed. *)
Lemma filter_entries answers readings (l : list (string * sensor_id)) :
  Forall (fun '(seg, s) => readings !! seg = Some (reading_of (answers s))) l ->
  length (List.filter (is_unavailable readings) (map fst l)) =
    length (List.filter failing (map answers (map snd l))) /\
  (length (List.filter (is_valid readings) (map fst l)) +
   length (List.filter failing (map answers (map snd l))) = length l)%nat.
Proof.
  induction 1 as [|[seg s] l Hs _ [IH1 IH2]]; [split; reflexivity|].
  assert (Hu : is_unavailable readings seg = failing (answers s)).
  { unfold is_unavailable, reading_of in *. rewrite Hs.
    destruct (answers s); reflexivity. }
  assert (Hv : is_valid readings seg = negb (failing (answers s))).
  { unfold is_valid, reading_of in *. rewrite Hs.
    destruct (answers s); reflexivity. }
  cbn [map fst snd List.filter]. rewrite Hu, Hv.
  destruct (failing (answers s)); cbn [negb length]; lia.
Qed.

Lemma read_all_imus_entries (answers : sensor_id -> sensor_outcome) h :
  exists readings h',
    read_all_imus (healthy_mux answers) h = (Ret readings, h') /\
    dom readings = list_to_set DataCollection.SEGMENTS /\
    Forall (fun '(seg, s) => readings !! seg = Some (reading_of (answers s)))
           sensors.
Proof.
  unfold read_all_imus, mbind, M_bind, bind.
  destruct (read_each_returns _ _ (read_tca_healthy answers) TCA_CHANNEL_MAP ∅ h)
    as [h1 ->].
  destruct (read_each_returns _ _ (read_direct_any (healthy_mux answers))
              DIRECT_ADDRESS_MAP
              (foldl (fun m '(key, seg) =>
                        <[seg := reading_of (answers (OnChannel key))]> m)
                 ∅ TCA_CHANNEL_MAP) h1) as [h2 ->].
  eexists _, h2. split; [reflexivity|].
  cbn [TCA_CHANNEL_MAP DIRECT_ADDRESS_MAP foldl healthy_mux sensor].
  split; [rewrite !dom_insert_L; set_solver|].
  repeat constructor; by simplify_map_eq.
Qed.

(** C5. Whatever each of the ten sensors answers, the sampling pass
    returns a snapshot whose keys are the ten segments, and the entry of
    every segment is what its own sensor answered (a reading, or
    Unavailable when that sensor failed): changing what some sensors
    answer, for instance making one fail, leaves the entries of all the
    others as they were. So with exactly one failing sensor the snapshot
    has exactly one Unavailable entry and nine valid ones. *)
Theorem read_all_imus_isolates_failures
    (answers answers' : sensor_id -> sensor_outcome) h :
  exists readings h',
    read_all_imus (healthy_mux answers) h = (Ret readings, h') /\
    dom readings = list_to_set DataCollection.SEGMENTS /\
    Forall (fun '(seg, s) => readings !! seg = Some (reading_of (answers s)))
           sensors /\
    (exists readings' h'',
       read_all_imus (healthy_mux answers') h = (Ret readings', h'') /\
       Forall (fun '(seg, s) =>
                 answers' s = answers s -> readings' !! seg = readings !! seg)
              sensors) /\
    (length (List.filter failing (map answers (map snd sensors))) = 1%nat ->
     length (List.filter (is_unavailable readings) (map fst sensors)) = 1%nat /\
     length (List.filter (is_valid readings) (map fst sensors)) = 9%nat).
Proof.
  destruct (read_all_imus_entries answers h) as (readings & h' & Hrun & Hdom & Hentries).
  destruct (read_all_imus_entries answers' h)
    as (readings' & h'' & Hrun' & _ & Hentries').
  exists readings, h'. split; [exact Hrun|]. split; [exact Hdom|].
  split; [exact Hentries|]. split.
  - exists readings', h''. split; [exact Hrun'|].
    rewrite Forall_forall in Hentries, Hentries'. apply Forall_forall.
    intros [seg s] Hin Hsame.
    rewrite (Hentries (seg, s) Hin), (Hentries' (seg, s) Hin), Hsame. reflexivity.
  - destruct (filter_entries _ _ _ Hentries) as [H1 H2].
    intros Hone. rewrite Hone in H1, H2. split; [exact H1|].
    change (length sensors) with 10%nat in H2. lia.
Qed.

Lemma single_bit channel :
  (0 <= channel < 8)%Z ->
  (0 < Z.shiftl 1 channel < 256)%Z /\
  (forall i, Z.testbit (Z.shiftl 1 channel) i = (i =? channel)%Z).
Proof.
  intros Hc. rewrite Z.shiftl_1_l. split.
  - split; [apply Z.pow_pos_nonneg; lia|].
    change 256%Z with (2 ^ 8)%Z. apply Z.pow_lt_mono_r; lia.
  - intros i. rewrite Z.pow2_bits_eqb by lia. apply Z.eqb_sym.
Qed.

(** C6. Whatever the bus does, the operations of one multiplexed read
    are: the write of [1 << channel], a byte with the single bit
    [channel] set; then, if that write was acknowledged, the sensor
    accesses on that channel; and last a write of zero. The closing write
    is there on every path, also when the opening write, the sensor or an
    earlier closing write failed, and whenever the read returns (a
    reading or [None]) the last closing write was acknowledged. *)
Theorem read_tca_imu_open_read_close env channel h :
  (0 <= channel < 8)%Z ->
  exists r mid,
    read_tca_imu env channel h =
      (r, h ++ [TcaWrite (Z.shiftl 1 channel)] ++ mid ++ [TcaWrite 0]) /\
    Forall (between_open_and_close channel) mid /\
    head mid = (if tca_ack env h (Z.shiftl 1 channel)
                then Some (MpuInit (OnChannel channel)) else None) /\
    (forall a, r = Ret a ->
       tca_ack env (h ++ [TcaWrite (Z.shiftl 1 channel)] ++ mid) 0 = true) /\
    (0 < Z.shiftl 1 channel < 256)%Z /\
    (forall i, Z.testbit (Z.shiftl 1 channel) i = (i =? channel)%Z).
Proof.
  intros Hc. destruct (single_bit channel Hc) as [Hrange Hbits].
  run_bus.
  destruct (tca_ack env h (Z.shiftl 1 channel)) eqn:Hopen;
    [destruct (sensor env (OnChannel channel)) as [| |ax ay az] eqn:Hs|];
    cbn [compute_angles]; rewrite <- ?app_assoc; cbn [app].
  - (* the sensor is absent *)
    destruct (tca_ack env _ 0) eqn:Hclose;
      exists_mid [MpuInit (OnChannel channel)].
  - (* reading the acceleration fails *)
    destruct (tca_ack env _ 0) eqn:Hclose;
      exists_mid [MpuInit (OnChannel channel); MpuAccel (OnChannel channel)].
  - (* the read succeeds *)
    destruct (tca_ack env _ 0) eqn:Hclose.
    + exists_mid [MpuInit (OnChannel channel); MpuAccel (OnChannel channel)].
    + (* the closing write fails inside [try]: the handler closes again *)
      rewrite <- ?app_assoc; cbn [app].
      match goal with
      | |- context [tca_ack env ?h' 0] => destruct (tca_ack env h' 0) eqn:Hclose'
      end;
        exists_mid [MpuInit (OnChannel channel); MpuAccel (OnChannel channel);
                    TcaWrite 0].
  - (* the opening write fails *)
    destruct (tca_ack env _ 0) eqn:Hclose; exists_mid (@nil bus_op).
Qed.

Lemma compute_angles_formula ax ay az :
  (fst (compute_angles ax ay az) == angle_pitch ax ay az)%Q /\
  (snd (compute_angles ax ay az) == angle_roll ay az)%Q.
Proof.
  unfold compute_angles, angle_pitch, angle_roll, degrees, Qdiv. cbn [fst snd].
  change (ay ^ 2)%Q with (ay * ay)%Q. change (az ^ 2)%Q with (az * az)%Q.
  split; rewrite Qmult_assoc; reflexivity.
Qed.

Lemma read_sensor_some env s h a h' :
  read_sensor env s h = (Ret (Some a), h') ->
  exists ax ay az,
    sensor env s = Accel ax ay az /\
    a = {| pitch := round (fst (compute_angles ax ay az)) 3;
           roll := round (snd (compute_angles ax ay az)) 3 |}.
Proof.
  destruct s as [channel|address]; cbn [read_sensor]; run_bus.
  - destruct (tca_ack env h (Z.shiftl 1 channel)).
    + destruct (sensor env (OnChannel channel)) as [| |ax ay az].
      * destruct (tca_ack env _ 0); intros [=].
      * destruct (tca_ack env _ 0); intros [=].
      * cbn [compute_angles].
        destruct (tca_ack env _ 0) eqn:Hclose.
        -- intros [= <- _]. exists ax, ay, az. split; reflexivity.
        -- match goal with
           | |- context [tca_ack env ?hh 0] => destruct (tca_ack env hh 0)
           end; intros [=].
    + destruct (tca_ack env _ 0); intros [=].
  - destruct (sensor env (Direct address)) as [| |ax ay az];
      [intros [=]|intros [=]|].
    cbn [compute_angles]. intros [= <- _]. exists ax, ay, az. split; reflexivity.
Qed.

(** C9. Floats read as rationals and [atan2], [sqrt], [pi] left
    uninterpreted: for all acceleration components [compute_angles]
    returns the document's two formulas, [atan2(-ax, sqrt(ay^2 + az^2))]
    and [atan2(ay, az)] taken to degrees; and whenever either read path
    returns a reading, its pitch and roll are those two formulas at the
    acceleration the sensor gave, rounded to three decimals: a multiple of
    0.001 at most 0.0005 away. *)
Theorem stored_angles_are_rounded_formula env s h a h' (x y z : Q) :
  read_sensor env s h = (Ret (Some a), h') ->
  (fst (compute_angles x y z) == angle_pitch x y z)%Q /\
  (snd (compute_angles x y z) == angle_roll y z)%Q /\
  exists ax ay az,
    sensor env s = Accel ax ay az /\
    pitch a = round (angle_pitch ax ay az) 3 /\
    roll a = round (angle_roll ay az) 3 /\
    (exists k : Z, pitch a = k # 1000) /\
    (exists k : Z, roll a = k # 1000) /\
    (angle_pitch ax ay az - (1 # 2000) <= pitch a
       <= angle_pitch ax ay az + (1 # 2000))%Q /\
    (angle_roll ay az - (1 # 2000) <= roll a
       <= angle_roll ay az + (1 # 2000))%Q.
Proof.
  intros Hread.
  destruct (read_sensor_some _ _ _ _ _ Hread) as (ax & ay & az & Hs & ->).
  destruct (compute_angles_formula ax ay az) as [Hp Hr].
  split; [apply compute_angles_formula|]. split; [apply compute_angles_formula|].
  exists ax, ay, az. cbn [pitch roll].
  rewrite (round_compat _ _ 3 Hp), (round_compat _ _ 3 Hr).
  destruct (round_3_decimals (angle_pitch ax ay az)) as [Hkp Hnp].
  destruct (round_3_decimals (angle_roll ay az)) as [Hkr Hnr].
  repeat split; try assumption; try reflexivity; tauto.
Qed.
End AcquisitionFacts.

Lemma read_all_imus_isolates_failures_witness :
  exists readings h',
    ImuReader.read_all_imus (H := Samples.coarse_libm)
      (Spec.healthy_mux Samples.channel_3_absent) [] = (Py.Ret readings, h') /\
    readings !! "right_thigh" = Some None /\
    length (List.filter (Spec.is_unavailable readings) (map fst Spec.sensors)) = 1%nat /\
    length (List.filter (Spec.is_valid readings) (map fst Spec.sensors)) = 9%nat.
Proof.
  destruct (read_all_imus_isolates_failures (H := Samples.coarse_libm)
              Samples.channel_3_absent Samples.at_rest [])
    as (readings & h' & Hrun & _ & Hentries & _ & Hone).
  exists readings, h'. split; [exact Hrun|]. split.
  - rewrite Forall_forall in Hentries.
    apply (Hentries ("right_thigh", ImuReader.OnChannel 3)).
    apply list_elem_of_In. simpl. tauto.
  - apply Hone. reflexivity.
Defined.

Lemma read_tca_imu_open_read_close_witness :
  exists r mid,
    ImuReader.read_tca_imu (H := Samples.coarse_libm)
      (Spec.healthy_mux Samples.channel_3_absent) 3 [] =
      (r, [ImuReader.TcaWrite 8] ++ mid ++ [ImuReader.TcaWrite 0]) /\
    Forall (Spec.between_open_and_close 3) mid.
Proof.
  destruct (read_tca_imu_open_read_close (H := Samples.coarse_libm)
              (Spec.healthy_mux Samples.channel_3_absent) 3 [])
    as (r & mid & Hrun & Hmid & _).
  - lia.
  - exists r, mid. split; [exact Hrun|exact Hmid].
Defined.
Lemma stored_angles_are_rounded_formula_witness :
  exists a ax ay az,
    Samples.at_rest (ImuReader.OnChannel 0) = ImuReader.Accel ax ay az /\
    ImuReader.pitch a = Py.round (Spec.angle_pitch (H := Samples.coarse_libm) ax ay az) 3.
Proof.
  destruct (ImuReader.read_tca_imu (H := Samples.coarse_libm)
              (Spec.healthy_mux Samples.at_rest) 0 []) as [[[a|]|e] h'] eqn:Hrun;
    [|vm_compute in Hrun; discriminate Hrun..].
  destruct (stored_angles_are_rounded_formula (H := Samples.coarse_libm)
              (Spec.healthy_mux Samples.at_rest) (ImuReader.OnChannel 0) [] a h'
              0 0 1 Hrun)
    as (_ & _ & ax & ay & az & Hs & Hp & _).
  exists a, ax, ay, az. split; [exact Hs|exact Hp].
Defined.


(** ** deploy.py: the alert gate and the cooldown *)

Section AlertFacts.
Import Py Deploy Spec.

Lemma Qle_bool_false x y : Qle_bool x y = false <-> ~ (x <= y)%Q.
Proof.
  rewrite <- Qle_bool_iff. destruct (Qle_bool x y); split; congruence.
Qed.

Lemma sounded_iff last_alert o :
  sounded (monitor_iter last_alert o) = true <->
  sel_pressed o = false /\
  exists label, prediction o = Some label /\ contains "good" label = false /\
                (COOLDOWN_SEC <= now o - last_alert)%Q.
Proof.
  unfold monitor_iter.
  destruct (sel_pressed o); [split; [discriminate|intros [? _]; discriminate]|].
  destruct (prediction o) as [label|];
    [|split; [discriminate|intros (_ & ? & ? & _); discriminate]].
  destruct (contains "good" label) eqn:Hgood; cbn [negb andb].
  - split; [discriminate|]. intros (_ & l & [= <-] & Hl & _). congruence.
  - destruct (Qle_bool COOLDOWN_SEC (now o - last_alert)) eqn:Hgate.
    + split; [|reflexivity]. intros _. split; [reflexivity|].
      exists label. apply Qle_bool_iff in Hgate. auto.
    + split; [discriminate|]. intros (_ & l & _ & _ & Hle).
      apply Qle_bool_false in Hgate. contradiction.
Qed.

Lemma carry_monitor_iter last_alert o :
  carry (monitor_iter last_alert o) =
  if sel_pressed o then None
  else Some (if sounded (monitor_iter last_alert o) then now o else last_alert).
Proof.
  unfold monitor_iter.
  destruct (sel_pressed o); [reflexivity|].
  destruct (prediction o) as [label|]; [|reflexivity].
  destruct (negb (contains "good" label) &&
            Qle_bool COOLDOWN_SEC (now o - last_alert)); reflexivity.
Qed.

Lemma clock_when_sounded last_alert o :
  sounded (monitor_iter last_alert o) = true ->
  clock (monitor_iter last_alert o) = Some (now o).
Proof.
  unfold monitor_iter.
  destruct (sel_pressed o); [discriminate|].
  destruct (prediction o) as [label|]; [|discriminate].
  destruct (negb (contains "good" label) &&
            Qle_bool COOLDOWN_SEC (now o - last_alert)); [reflexivity|discriminate].
Qed.

(** One turn of the loop, seen from the list of alert times. *)
Lemma alert_times_loop last_alert o rest :
  alert_times (continuous_loop last_alert (o :: rest)) =
  if sel_pressed o then []
  else if sounded (monitor_iter last_alert o)
       then now o :: alert_times (continuous_loop (now o) rest)
       else alert_times (continuous_loop last_alert rest).
Proof.
  cbn [continuous_loop]. unfold alert_times at 1. cbn [omap list_omap].
  fold alert_times. rewrite carry_monitor_iter.
  destruct (sounded (monitor_iter last_alert o)) eqn:Hs.
  - rewrite (clock_when_sounded _ _ Hs).
    destruct (sel_pressed o) eqn:Hsel; [|reflexivity].
    apply sounded_iff in Hs as [? _]. congruence.
  - destruct (sel_pressed o); reflexivity.
Qed.

Lemma continuous_loop_spaced obs : forall last_alert,
  spaced COOLDOWN_SEC last_alert (alert_times (continuous_loop last_alert obs)).
Proof.
  induction obs as [|o obs IH]; intros last_alert; [exact I|].
  rewrite alert_times_loop.
  destruct (sel_pressed o); [exact I|].
  destruct (sounded (monitor_iter last_alert o)) eqn:Hs; [|apply IH].
  split; [|apply IH].
  apply sounded_iff in Hs as (_ & label & _ & _ & Hle). lra.
Qed.

Lemma spaced_after gap lo ts :
  (0 <= gap)%Q -> spaced gap lo ts -> Forall (fun t => (lo + gap <= t)%Q) ts.
Proof.
  intros Hgap. revert lo. induction ts as [|t ts IH]; intros lo Hsp; [constructor|].
  destruct Hsp as [Ht Hrest]. constructor; [exact Ht|].
  eapply Forall_impl; [apply (IH _ Hrest)|]. intros t' Ht'. cbn in Ht'. lra.
Qed.

Lemma in_window_iff w len t :
  in_window w len t = true <-> (w <= t)%Q /\ ~ (w + len <= t)%Q.
Proof.
  unfold in_window. rewrite andb_true_iff, negb_true_iff, Qle_bool_iff, Qle_bool_false.
  reflexivity.
Qed.

Lemma spaced_window gap w len ts : forall lo,
  (len < gap)%Q -> (0 <= gap)%Q -> spaced gap lo ts ->
  (alerts_in_window w len ts <= 1)%nat.
Proof.
  unfold alerts_in_window.
  induction ts as [|t ts IH]; intros lo Hlen Hgap Hsp; cbn [List.filter length]; [lia|].
  destruct Hsp as [Ht Hrest].
  destruct (in_window w len t) eqn:Hin; [|eapply IH; eassumption].
  apply in_window_iff in Hin as [Hw Hend].
  assert (Hnone : List.filter (in_window w len) ts = []).
  { pose proof (spaced_after _ _ _ Hgap Hrest) as Hafter.
    clear IH Hrest. induction Hafter as [|t' ts' Ht' _ IH']; [reflexivity|].
    cbn [List.filter].
    destruct (in_window w len t') eqn:Hin'; [|exact IH'].
    apply in_window_iff in Hin' as [_ Hend']. exfalso. apply Hend'. lra. }
  rewrite Hnone. cbn. lia.
Qed.

(** C1. In one turn of continuous monitoring the buzzer sounds exactly
    when the loop was not left, a label was obtained, the label is not a
    good one, and the time since the last alert is at least the cooldown;
    the timestamp handed to the next turn is the current time when the
    buzzer sounded and is unchanged otherwise, so a good label neither
    sounds nor touches it. Hence, for every sequence of observations, at
    most one alert falls in any window shorter than the cooldown. *)
Theorem cooldown_gates_alerts
    (last_alert : Q) (o : observation) (obs : list observation) (w len : Q) :
  (len < COOLDOWN_SEC)%Q ->
  (sounded (monitor_iter last_alert o) = true <->
   sel_pressed o = false /\
   exists label, prediction o = Some label /\ contains "good" label = false /\
                 (COOLDOWN_SEC <= now o - last_alert)%Q) /\
  carry (monitor_iter last_alert o) =
    (if sel_pressed o then None
     else Some (if sounded (monitor_iter last_alert o) then now o else last_alert)) /\
  (forall label, prediction o = Some label -> contains "good" label = true ->
     sounded (monitor_iter last_alert o) = false /\
     carry (monitor_iter last_alert o) =
       (if sel_pressed o then None else Some last_alert)) /\
  (alerts_in_window w len (alert_times (snd (continuous_mode obs))) <= 1)%nat.
Proof.
  intros Hlen.
  split; [apply sounded_iff|]. split; [apply carry_monitor_iter|]. split.
  - intros label Hp Hgood.
    assert (Hs : sounded (monitor_iter last_alert o) = false).
    { destruct (sounded (monitor_iter last_alert o)) eqn:Hs; [|reflexivity].
      apply sounded_iff in Hs as (_ & l & Hl & Hbad & _). congruence. }
    rewrite carry_monitor_iter, Hs. auto.
  - cbn [continuous_mode snd].
    apply (spaced_window COOLDOWN_SEC w len _ 0%Q Hlen); [unfold COOLDOWN_SEC; lra|].
    apply continuous_loop_spaced.
Qed.

Lemma cooldown_gates_alerts_witness :
  (alerts_in_window 100 59
     (alert_times (snd (continuous_mode
        [classified "sitting_bad" 100; classified "standing_bad" 101;
         classified "sitting_good" 130; classified "sitting_bad" 158]))) <= 1)%nat.
Proof.
  apply (cooldown_gates_alerts 0 (classified "sitting_bad" 100)).
  reflexivity.
Defined.

Lemma loop_alert last_alert label t rest :
  contains "good" label = false ->
  (COOLDOWN_SEC <= t - last_alert)%Q ->
  alert_times (continuous_loop last_alert (classified label t :: rest)) =
  t :: alert_times (continuous_loop t rest).
Proof.
  intros Hbad Hle. rewrite alert_times_loop. cbn [classified sel_pressed now].
  replace (sounded _) with true; [reflexivity|].
  symmetry. apply sounded_iff. split; [reflexivity|]. exists label. auto.
Qed.

Lemma loop_quiet last_alert label t rest :
  ~ (COOLDOWN_SEC <= t - last_alert)%Q ->
  alert_times (continuous_loop last_alert (classified label t :: rest)) =
  alert_times (continuous_loop last_alert rest).
Proof.
  intros Hlt. rewrite alert_times_loop. cbn [classified sel_pressed now].
  destruct (sounded _) eqn:Hs; [|reflexivity].
  apply sounded_iff in Hs as (_ & l & _ & _ & Hle). contradiction.
Qed.

(** C2, as the code has it. The monitoring loop starts with its
    last-alert timestamp at zero, so the first bad posture alerts only if
    the clock already reads at least the cooldown. From any such time
    [t0]: bad postures at [t0] and [t0 + 30] give exactly one alert, at
    [t0], and a third at [t0 + 61] gives a second one. *)
Theorem second_alert_after_cooldown (label : string) (t0 : Q) :
  contains "good" label = false ->
  (COOLDOWN_SEC <= t0)%Q ->
  alert_times (snd (continuous_mode
    [classified label t0; classified label (t0 + 30)])) = [t0] /\
  alert_times (snd (continuous_mode
    [classified label t0; classified label (t0 + 30); classified label (t0 + 61)]))
    = [t0; (t0 + 61)%Q].
Proof.
  intros Hbad Ht0. unfold COOLDOWN_SEC in Ht0. cbn [continuous_mode snd].
  rewrite !(loop_alert 0 label t0) by (auto; unfold COOLDOWN_SEC; lra).
  rewrite !(loop_quiet t0 label (t0 + 30)) by (unfold COOLDOWN_SEC; lra).
  rewrite (loop_alert t0 label (t0 + 61)) by (auto; unfold COOLDOWN_SEC; lra).
  split; reflexivity.
Qed.

Lemma second_alert_after_cooldown_witness :
  alert_times (snd (continuous_mode
    [classified "sitting_bad" 1000; classified "sitting_bad" (1000 + 30)]))
    = [1000%Q] /\
  alert_times (snd (continuous_mode
    [classified "sitting_bad" 1000; classified "sitting_bad" (1000 + 30);
     classified "sitting_bad" (1000 + 61)]))
    = [1000%Q; (1000 + 61)%Q].
Proof.
  apply (second_alert_after_cooldown "sitting_bad" 1000).
  - reflexivity.
  - unfold COOLDOWN_SEC. lra.
Defined.

(** C2, as stated, fails: with the simulated clock starting at zero the
    bad posture at [t = 0] is inside the cooldown counted from the initial
    timestamp, so nothing sounds at 0 or 30 and the only alert is the one
    at 61. *)
Lemma no_alert_at_time_zero :
  alert_times (snd (continuous_mode
    [classified "sitting_bad" 0; classified "sitting_bad" 30])) <> [0%Q] /\
  alert_times (snd (continuous_mode
    [classified "sitting_bad" 0; classified "sitting_bad" 30])) = [] /\
  alert_times (snd (continuous_mode
    [classified "sitting_bad" 0; classified "sitting_bad" 30;
     classified "sitting_bad" 61])) = [61%Q].
Proof.
  split; [discriminate|]. split; reflexivity.
Qed.

End AlertFacts.

(** ** deploy.py: the mode controller *)

Section ModeFacts.
Import Py ImuReader Deploy Spec.


Lemma transition_realised m e m' :
  transition m e m' ->
  exists c t, mode_of c = Some m /\ uncaught c t = None /\
              event_of c (seen t) = Some e /\
              mode_of (fst (step c t)) = Some m'.
Proof.
  pose (press := returns {| nav_pressed := true; sel_pressed := true;
                            prediction := None; now := 0 |}).
  intros [[|]| | | |].
  - exists (MenuNav 0), press. repeat split.
  - exists (MenuNav 1), press. repeat split.
  - exists (MenuSel 0), press. repeat split.
  - exists (MenuSel 1), press. repeat split.
  - exists InCheck, press. repeat split.
  - exists (InMonitor 0), press. repeat split.
Qed.

(** With a multiplexer that acknowledges nothing, the first multiplexed
    read raises from its handler and [predict_posture] raises with it,
    after two writes and without touching a sensor. *)
Lemma predict_posture_dead_mux `{Libm}
    (answers : sensor_id -> sensor_outcome) (pkg : Training.model_package) h :
  predict_posture (dead_mux answers) pkg h =
  (Raise OSError, h ++ [TcaWrite 1; TcaWrite 0]).
Proof.
  unfold predict_posture, read_all_imus. cbn [read_each TCA_CHANNEL_MAP].
  unfold mbind, M_bind, bind, read_tca_imu, try_except, mbind, M_bind, bind,
    select_channel, close_channels, write_byte.
  cbn [dead_mux tca_ack]. rewrite <- app_assoc. reflexivity.
Qed.

(** C3, where the code departs from it. With every multiplexer write
    refused, [predict_posture()] raises [OSError] (the [close_channels()]
    in the handler of [read_tca_imu] is unprotected, and nothing up to
    [main] catches). A one-shot check then does not return to the menu,
    and a monitoring turn leaves Monitoring with select not held: both end
    the program, which is none of the three modes and takes no further
    turn. *)
Theorem check_and_monitoring_end_on_bus_error `{Libm}
    (answers : sensor_id -> sensor_outcome) (pkg : Training.model_package)
    (h : list bus_op) (nav sel : bool) (now last_alert : Q) :
  let result := fst (predict_posture (dead_mux answers) pkg h) in
  result = Raise OSError /\
  step InCheck (turn_of nav sel result now) =
    (Crashed OSError, lcd_show "Checking..." "Hold still") /\
  step (InMonitor last_alert) (turn_of nav false result now) =
    (Crashed OSError, []) /\
  mode_of (Crashed OSError) = None /\
  (forall t, step (Crashed OSError) t = (Crashed OSError, [])).
Proof.
  cbv zeta. rewrite predict_posture_dead_mux. cbn [fst].
  repeat split; reflexivity.
Qed.

End ModeFacts.


(** ** The document's scenarios, run on the model *)

Section Scenarios.
Import Py ImuReader DataCollection Training Deploy Spec.

(** From the menu at cursor A, a select press and a check that finds
    "sitting_good": two pulses, and back to the menu at cursor A. *)
Example one_shot_good :
  let '(c, out) := run initial (map returns [Samples.idle; Samples.press_select;
                                            classified "sitting_good" 0]) in
  mode_of c = Some (MenuBrowsing A) /\
  length (List.filter is_buzzer_on out) = 2%nat.
Proof. vm_compute. split; reflexivity. Qed.

(** Monitoring with the wall clock at 1000: three bad postures one
    second apart give one alert. *)
Example monitoring_three_bad :
  alert_times (snd (continuous_mode
    [classified "sitting_bad" 1000; classified "sitting_bad" 1001;
     classified "sitting_bad" 1002])) = [1000%Q].
Proof. reflexivity. Qed.

(** A snapshot with one segment missing is not classified. *)
Example missing_segment_gives_none (model : list Q -> Z) (encoder : Z -> string) :
  predict_from (save_model_package model encoder) Samples.lower_back_missing = Ret None.
Proof. reflexivity. Qed.

(** On a new file the session writes the header, then the row. *)
Example header_then_row_on_new_file :
  map (fun w => head (snd w))
      (writes (fst (capture_session "sitting_good" 0 [Samples.one_sample]
                      Samples.no_file_yet)))
  = [Some (Str "timestamp"); Some (Num (round 1 4))].
Proof. reflexivity. Qed.
End Scenarios.

(** ** imu_reader.py: more about the bus *)

Section BusFacts.
Import Py ImuReader Spec Measures.
Context `{Libm}.

Implicit Types (env : environment) (h : list bus_op)
               (readings : gmap string (option angles)).













End BusFacts.




(** ** deploy.py: buzzer, display and menu *)

Section SignalFacts.
Import Py Deploy Spec Menu Signals.




















End SignalFacts.

(** ** deploy.py: the two modes, turn by turn *)

Section ModeRunFacts.
Import Py ImuReader Training Deploy Spec Menu Signals.

Implicit Types (readings : gmap string (option angles)) (row : gmap string Q).










End ModeRunFacts.



(** ** deploy.py: inference with any artifact, and on the hardware *)

Section InferenceFacts.
Import Py ImuReader Training Deploy Spec Menu Signals.

Implicit Types (readings : gmap string (option angles)) (row : gmap string Q).









End InferenceFacts.



(** ** data_collection.py: sessions and the file *)

Section SessionFacts.
Import Py ImuReader DataCollection Spec Capture.

Implicit Types (readings : gmap string (option angles)) (row : list cell)
               (fs : filesystem).




End SessionFacts.
